(** * NextjsTemplate: the two presentational components and the configuration

    A shallow embedding of
    - [src/components/VideoCard.tsx]   (the [VideoCard] client component),
    - [src/components/ui/safe-button.tsx] (the [SafeButton] wrapper),
    - [next.config.ts]                 (the [nextConfig] object),
    - the [ClientWrapper] pattern of the rules document,
    followed by the properties the specification states about them.

    JavaScript strings are sequences of UTF-16 code units, React elements
    are trees, a props object is a finite map from property names to
    values, and the hooks of a component instance are an explicit state
    record that is threaded through render and commit. *)

From Stdlib Require Import NArith List Ascii String.
From stdpp Require Import gmap strings list fin_maps.

(** ** JavaScript strings and values *)

Module Js.

(** A string is its sequence of UTF-16 code units. *)
Definition str : Type := list N.

(** An ASCII string literal of the source. *)
Definition lit (s : string) : str :=
  map N_of_ascii (list_ascii_of_string s).

(** [s[i]]: the one-unit string at index [i], [undefined] (here [None])
    when [i] is out of range. *)
Definition index (s : str) (i : nat) : option str :=
  match nth_error s i with
  | Some c => Some [c]
  | None => None
  end.

(** [s.startsWith(sub)] and [s.includes(sub)]. *)
Fixpoint startsWith (sub s : str) : bool :=
  match sub, s with
  | [], _ => true
  | _ :: _, [] => false
  | a :: sub', b :: s' => N.eqb a b && startsWith sub' s'
  end.

Fixpoint includes (sub s : str) : bool :=
  startsWith sub s ||
  match s with
  | [] => false
  | _ :: s' => includes sub s'
  end.

(** The values a property of a props object can hold.  Functions,
    elements and other objects are opaque references. *)
Inductive value : Type :=
| VUndefined
| VString (s : str)
| VBool (b : bool)
| VRef (r : N).

(** A props object: own properties by name. *)
Abbreviation object := (gmap string value).

(** Reading a property; an absent one reads as [undefined]. *)
Definition get (o : object) (k : string) : value :=
  match o !! k with
  | Some v => v
  | None => VUndefined
  end.

End Js.

Arguments Js.lit s%_string.

(** ** React element trees *)

Module React.

(** The type of an element: a host tag ([div], [img], ...) or a
    component that is imported from elsewhere and left unexpanded. *)
Inductive tag : Type :=
| Host (name : string)
| Component (name : string).

(** A node of a rendered tree.  [Undefined] is a child expression that
    evaluated to [undefined]; React renders nothing for it. *)
#[warnings="-register-all"]
Inductive node : Type :=
| Text (s : Js.str)
| Undefined
| Elem (t : tag) (attrs : list (string * Js.str)) (children : list node).

Definition tag_eqb (a b : tag) : bool :=
  match a, b with
  | Host x, Host y => String.eqb x y
  | Component x, Component y => String.eqb x y
  | _, _ => false
  end.

(** A child expression of type [string | undefined]. *)
Definition child (v : option Js.str) : node :=
  match v with
  | Some s => Text s
  | None => Undefined
  end.

Fixpoint assoc (k : string) (l : list (string * Js.str)) : option Js.str :=
  match l with
  | [] => None
  | (k', v) :: l' => if String.eqb k k' then Some v else assoc k l'
  end.

(** The attribute [k] of an element. *)
Definition attr (k : string) (n : node) : option Js.str :=
  match n with
  | Elem _ attrs _ => assoc k attrs
  | _ => None
  end.

Definition children (n : node) : list node :=
  match n with
  | Elem _ _ cs => cs
  | _ => []
  end.

(** All elements of type [t] in the tree, in document order. *)
Fixpoint by_tag (t : tag) (n : node) : list node :=
  match n with
  | Elem t' _ cs =>
      (if tag_eqb t t' then [n] else []) ++ flat_map (by_tag t) cs
  | _ => []
  end.

(** The text children of the tree, in document order. *)
Fixpoint texts (n : node) : list Js.str :=
  match n with
  | Text s => [s]
  | Undefined => []
  | Elem _ _ cs => flat_map texts cs
  end.

(** Does some child expression of the tree evaluate to [undefined]? *)
Fixpoint has_undefined (n : node) : bool :=
  match n with
  | Text _ => false
  | Undefined => true
  | Elem _ _ cs => existsb has_undefined cs
  end.

End React.

Import React.

(** ** VideoCard.tsx *)

Record VideoCardProps : Type := {
  id : Js.str;
  title : Js.str;
  channelName : Js.str;
  views : Js.str;
  timePosted : Js.str;
  duration : Js.str;
  channelId : Js.str;
}.

(** The hooks of one component instance: the [useState] cell, and the
    dependency array the [useEffect] saw when it last ran ([None] before
    the first commit). *)
Record hooks : Type := {
  thumbnail : Js.str;
  effect_deps : option (list Js.str);
}.

(** [useState("")], no effect committed yet. *)
Definition initial : hooks :=
  {| thumbnail := Js.lit ""; effect_deps := None |}.

(** The template literal of the effect. *)
Definition thumbnail_url (i : Js.str) : Js.str :=
  Js.lit "https://picsum.photos/200/300?random=" ++ i.

(** The template literal of the avatar image. *)
Definition avatar_url (c : Js.str) : Js.str :=
  Js.lit "https://i.pravatar.cc/300?u=" ++ c.

(** The JSX the component returns, for given props and a given value of
    the local [thumbnail]. *)
Definition view (p : VideoCardProps) (thumb : Js.str) : node :=
  Elem (Component "Card") [("className", Js.lit "overflow-hidden group")] [
    Elem (Component "CardContent") [("className", Js.lit "p-0")] [
      Elem (Host "div") [("className", Js.lit "relative")] [
        Elem (Host "img")
          [("src", thumb);
           ("alt", title p);
           ("className", Js.lit "w-full aspect-video object-cover")] [];
        Elem (Host "span")
          [("className",
            Js.lit "absolute bottom-2 right-2 bg-black/80 text-white text-xs px-1 rounded")]
          [Text (duration p)]
      ];
      Elem (Host "div") [("className", Js.lit "p-3 flex gap-3")] [
        Elem (Component "Avatar") [("className", Js.lit "h-9 w-9")] [
          Elem (Component "AvatarImage") [("src", avatar_url (channelId p))] [];
          Elem (Component "AvatarFallback") []
            [child (Js.index (channelName p) 0)]
        ];
        Elem (Host "div") [("className", Js.lit "flex-1")] [
          Elem (Host "h3") [("className", Js.lit "font-semibold line-clamp-2 mb-1")]
            [Text (title p)];
          Elem (Host "p") [("className", Js.lit "text-sm text-muted-foreground")]
            [Text (channelName p)];
          Elem (Host "div") [("className", Js.lit "text-sm text-muted-foreground")]
            [Text (views p);
             Text (Js.lit " views " ++ [8226%N] ++ Js.lit " ");
             Text (timePosted p)]
        ];
        Elem (Component "Button")
          [("variant", Js.lit "ghost");
           ("size", Js.lit "icon");
           ("className",
            Js.lit "h-8 w-8 opacity-0 group-hover:opacity-100 transition-opacity")]
          [Text [8942%N]]
      ]
    ]
  ].

(** One call of the component function: it reads [thumbnail] from the
    state cell and returns the JSX. *)
Definition VideoCard (p : VideoCardProps) (h : hooks) : node :=
  view p (thumbnail h).

(** The commit that follows a render: the effect runs when its dependency
    array [[id]] differs from the one of its last run (always on mount),
    and then calls [setThumbnail]. *)
Definition deps_changed (p : VideoCardProps) (h : hooks) : bool :=
  match effect_deps h with
  | Some [i] => negb (bool_decide (i = id p))
  | _ => true
  end.

Definition commit (p : VideoCardProps) (h : hooks) : hooks :=
  if deps_changed p h
  then {| thumbnail := thumbnail_url (id p); effect_deps := Some [id p] |}
  else h.

(** One pass of the component for the props [p]: render, commit, and
    render again when the commit changed the state.  Returns the outputs
    in order, and the hooks afterwards. *)
Definition pass (p : VideoCardProps) (h : hooks) : list node * hooks :=
  let h' := commit p h in
  if bool_decide (thumbnail h' = thumbnail h)
  then ([VideoCard p h], h')
  else ([VideoCard p h; VideoCard p h'], h').

(** The life of an instance: it is mounted with the first props and then
    re-rendered by its parent with each of the following ones. *)
Fixpoint run (ps : list VideoCardProps) (h : hooks) : list node * hooks :=
  match ps with
  | [] => ([], h)
  | p :: ps' =>
      let '(out, h') := pass p h in
      let '(outs, h'') := run ps' h' in
      (out ++ outs, h'')
  end.

Definition mount (p : VideoCardProps) : list node * hooks :=
  pass p initial.

(** The thumbnail image of an output, and its [src]. *)
Definition thumbnail_src (n : node) : list (option Js.str) :=
  map (attr "src") (by_tag (Host "img") n).

Definition avatar_src (n : node) : list (option Js.str) :=
  map (attr "src") (by_tag (Component "AvatarImage") n).

Definition avatar_fallback (n : node) : list (list node) :=
  map children (by_tag (Component "AvatarFallback") n).

(** The variant the specification compares with: the thumbnail is
    assigned during render, there is no state cell and no effect. *)
Definition VideoCardSync (p : VideoCardProps) : node :=
  let thumb := thumbnail_url (id p) in
  view p thumb.

(** The specification's wording of the avatar template, with [userId]. *)
Definition avatar_template (userId : Js.str) : Js.str :=
  Js.lit "https://i.pravatar.cc/300?u=" ++ userId.

(** Every display string of the props is non-empty. *)
Definition nonempty (s : Js.str) : bool :=
  match s with [] => false | _ :: _ => true end.

Definition sane (p : VideoCardProps) : bool :=
  nonempty (id p) && nonempty (title p) && nonempty (channelName p) &&
  nonempty (views p) && nonempty (timePosted p) && nonempty (duration p) &&
  nonempty (channelId p).

(** The hooks once the effect has run for the props [p]. *)
Definition settled (p : VideoCardProps) : hooks :=
  {| thumbnail := thumbnail_url (id p); effect_deps := Some [id p] |}.

(** The states an instance can be in: before the first commit, or with
    the thumbnail the last run of the effect assigned. *)
Definition coherent (h : hooks) : Prop :=
  match effect_deps h with
  | None => True
  | Some [i] => thumbnail h = thumbnail_url i
  | Some _ => False
  end.

(** Whether the effect has yet to run for the props being rendered, or
    has run for them: what the commit after the render will find. *)
Inductive status : Type := Pending | Completed.

Definition status_of (p : VideoCardProps) (h : hooks) : status :=
  if deps_changed p h then Pending else Completed.

(** The hooks an instance can have between passes: those of a fresh
    instance, or those the effect left for some props. *)
Definition reachable (h : hooks) : Prop :=
  h = initial ∨ ∃ q, h = settled q.

(** How often the id changes along a sequence of props, when the effect
    last ran for [prev] ([None]: it has not run yet). *)
Fixpoint id_changes (prev : option Js.str) (ps : list VideoCardProps) : nat :=
  match ps with
  | [] => 0
  | p :: ps' =>
      (if bool_decide (prev = Some (id p)) then 0 else 1) +
      id_changes (Some (id p)) ps'
  end.

(** The id the effect last ran for. *)
Definition last_id (h : hooks) : option Js.str :=
  match effect_deps h with
  | Some [i] => Some i
  | _ => None
  end.

(** ** safe-button.tsx *)

(** A React element whose props are kept as an object: what
    [<Button ... />] evaluates to. *)
Record element : Type := {
  type : tag;
  props : Js.object;
}.

(** Modelled from the spec: [cn] of [@/lib/utils] is not among the
    sources.  The specification says that [SafeButton] "merges a static
    CSS class list" and that the result "always includes the static class
    substring": the static classes come first and the caller's class
    string, when there is a non-empty one, follows after a space. *)
Definition cn (static : Js.str) (className : Js.value) : Js.str :=
  match className with
  | Js.VString (c :: cs) => static ++ Js.lit " " ++ c :: cs
  | _ => static
  end.

(** [({ className, variant, ...props }) =>
       <Button className={cn(..., className)} variant={variant} {...props} />]:
    the rest object is the argument without the two named properties, and
    it is spread last, over the two that are written out. *)
Definition SafeButton (o : Js.object) : element :=
  let className := Js.get o "className" in
  let variant := Js.get o "variant" in
  let rest : Js.object := delete "variant" (delete "className" o) in
  {| type := Component "Button";
     props :=
       rest ∪
       <["variant" := variant]>
         (<["className" :=
              Js.VString (cn (Js.lit "font-semibold transition-all") className)]>
            ∅) |}.

(** The class string an element carries. *)
Definition class_of (e : element) : Js.str :=
  match props e !! "className" with
  | Some (Js.VString s) => s
  | _ => []
  end.

(** ** next.config.ts *)

Module Config.

(** An object literal of booleans, strings, arrays and objects. *)
#[warnings="-register-all"]
Inductive json : Type :=
| JBool (b : bool)
| JString (s : Js.str)
| JArray (items : list json)
| JObject (fields : list (string * json)).

Definition nextConfig : json :=
  JObject [
    ("reactStrictMode", JBool true);
    ("images", JObject [
       ("domains",
        JArray [JString (Js.lit "i.pravatar.cc");
                JString (Js.lit "picsum.photos")])
     ]);
    ("compiler", JObject [
       ("styledComponents", JBool true)
     ])
  ].

Definition fields_of (j : json) : list (string * json) :=
  match j with
  | JObject fs => fs
  | _ => []
  end.

Definition keys (j : json) : list string := map fst (fields_of j).

Fixpoint lookup_field (k : string) (fs : list (string * json)) : option json :=
  match fs with
  | [] => None
  | (k', v) :: fs' => if String.eqb k k' then Some v else lookup_field k fs'
  end.

Definition field (k : string) (j : json) : option json :=
  lookup_field k (fields_of j).

(** The strings of an array of strings. *)
Definition strings_of (j : json) : list Js.str :=
  match j with
  | JArray items =>
      flat_map (fun x => match x with JString s => [s] | _ => [] end) items
  | _ => []
  end.

(** The boolean options written directly in an object. *)
Definition flags_of (j : json) : list (string * bool) :=
  flat_map (fun kv => match snd kv with JBool b => [(fst kv, b)] | _ => [] end)
           (fields_of j).

(** Every boolean option of the tree, with the path that leads to it. *)
Fixpoint all_flags (j : json) : list (list string * bool) :=
  match j with
  | JBool b => [([], b)]
  | JString _ => []
  | JArray _ => []
  | JObject fs =>
      flat_map
        (fun kv => map (fun pb => (fst kv :: fst pb, snd pb)) (all_flags (snd kv)))
        fs
  end.

(** [images.domains]: the image-host allow-list. *)
Definition image_domains (cfg : json) : list Js.str :=
  match field "images" cfg with
  | Some images =>
      match field "domains" images with
      | Some ds => strings_of ds
      | None => []
      end
  | None => []
  end.

(** The options of the [compiler] block. *)
Definition compiler_flags (cfg : json) : list (string * bool) :=
  match field "compiler" cfg with
  | Some c => flags_of c
  | None => []
  end.

End Config.

(** ** Queries used for the further properties *)

(** The DOM [textContent] of a tree: its texts, concatenated. *)
Definition text_content (n : node) : Js.str := concat (texts n).

(** The [alt] of the thumbnail image of an output. *)
Definition thumbnail_alt (n : node) : list (option Js.str) :=
  map (attr "alt") (by_tag (Host "img") n).

(** Two props records that agree on every field but [id]. *)
Definition same_but_id (p q : VideoCardProps) : Prop :=
  title p = title q ∧ channelName p = channelName q ∧ views p = views q ∧
  timePosted p = timePosted q ∧ duration p = duration q ∧
  channelId p = channelId q.

(** The start of every https URL on the host [d]. *)
Definition origin (d : Js.str) : Js.str :=
  Js.lit "https://" ++ d ++ Js.lit "/".

(** Is the URL on one of the hosts of [images.domains]? *)
Definition allowed (url : Js.str) : bool :=
  existsb (fun d => Js.startsWith (origin d) url)
          (Config.image_domains Config.nextConfig).

(** What an output shows as images: the avatar is on an allowed host,
    and the thumbnail is either still empty or on an allowed host. *)
Definition images_allowed (n : node) : Prop :=
  (∃ a, avatar_src n = [Some a] ∧ allowed a = true) ∧
  (∃ t, thumbnail_src n = [Some t] ∧ (t = [] ∨ allowed t = true)).

(** ** The client wrapper of the rules document

    [[
    export default function ClientWrapper({ children }) {
      const [mounted, setMounted] = useState(false);
      useEffect(() => setMounted(true), []);
      if (!mounted) return null;
      return <>{children}</>;
    }
    ]] *)

(** What the wrapper returns: [null], or a fragment of its children. *)
Inductive wrapped : Type :=
| Null
| Fragment (children : list node).

(** Its hooks: the [useState] cell, and whether the effect, whose
    dependency array is empty, has run. *)
Record wrapper_hooks : Type := {
  mounted : bool;
  effect_ran : bool;
}.

Definition wrapper_initial : wrapper_hooks :=
  {| mounted := false; effect_ran := false |}.

Definition ClientWrapper (children : list node) (h : wrapper_hooks) : wrapped :=
  if negb (mounted h) then Null else Fragment children.

(** An effect with the dependencies [[]] runs after the first commit
    only; it calls [setMounted(true)]. *)
Definition wrapper_commit (h : wrapper_hooks) : wrapper_hooks :=
  if effect_ran h then h else {| mounted := true; effect_ran := true |}.

(** Render, commit, and render again when the state changed. *)
Definition wrapper_pass (children : list node) (h : wrapper_hooks)
  : list wrapped * wrapper_hooks :=
  let h' := wrapper_commit h in
  if Bool.eqb (mounted h') (mounted h)
  then ([ClientWrapper children h], h')
  else ([ClientWrapper children h; ClientWrapper children h'], h').

Fixpoint wrapper_run (cs : list (list node)) (h : wrapper_hooks)
  : list wrapped * wrapper_hooks :=
  match cs with
  | [] => ([], h)
  | c :: cs' =>
      let '(out, h') := wrapper_pass c h in
      let '(outs, h'') := wrapper_run cs' h' in
      (out ++ outs, h'')
  end.

(** ** Sample inputs *)

Definition demo : VideoCardProps :=
  {| id := Js.lit "7"; title := Js.lit "Intro"; channelName := Js.lit "Acme";
     views := Js.lit "1.2K"; timePosted := Js.lit "2 days ago";
     duration := Js.lit "10:30"; channelId := Js.lit "ch1" |}.

Definition demo_button : Js.object :=
  <["className" := Js.VString (Js.lit "w-full")]>
    (<["variant" := Js.VString (Js.lit "outline")]>
       (<["disabled" := Js.VBool true]>
          (<["onClick" := Js.VRef 1]> ∅))).

Definition demo_other_id : VideoCardProps :=
  {| id := Js.lit "8"; title := Js.lit "Intro"; channelName := Js.lit "Acme";
     views := Js.lit "1.2K"; timePosted := Js.lit "2 days ago";
     duration := Js.lit "10:30"; channelId := Js.lit "ch1" |}.

Definition demo_retitled : VideoCardProps :=
  {| id := Js.lit "7"; title := Js.lit "Intro (remastered)";
     channelName := Js.lit "Acme";
     views := Js.lit "1.3K"; timePosted := Js.lit "3 days ago";
     duration := Js.lit "10:30"; channelId := Js.lit "ch1" |}.

Definition demo_plain : Js.object :=
  <["disabled" := Js.VBool true]> ∅.

(** * Properties *)

(** ** Strings *)

Lemma includes_unfold (sub s : Js.str) :
  Js.includes sub s =
  Js.startsWith sub s || match s with [] => false | _ :: s' => Js.includes sub s' end.
Proof. destruct s; reflexivity. Qed.

Lemma startsWith_spec (sub s : Js.str) :
  Js.startsWith sub s = true ↔ ∃ post, s = sub ++ post.
Proof.
  revert s. induction sub as [|a sub IH]; intros s; simpl.
  - split; [intros _; exists s; reflexivity | reflexivity].
  - destruct s as [|b s].
    + split; [discriminate | intros [post H]; discriminate H].
    + rewrite andb_true_iff, N.eqb_eq, IH. split.
      * intros [-> [post ->]]. exists post. reflexivity.
      * intros [post H]. injection H as -> ->. split; [reflexivity | eauto].
Qed.

Lemma includes_spec (sub s : Js.str) :
  Js.includes sub s = true ↔ ∃ pre post, s = pre ++ sub ++ post.
Proof.
  split.
  - induction s as [|b s IH]; rewrite includes_unfold, orb_true_iff.
    + intros [H | H]; [| discriminate H].
      apply startsWith_spec in H as [post H]. exists [], post. exact H.
    + intros [H | H].
      * apply startsWith_spec in H as [post H]. exists [], post. exact H.
      * destruct (IH H) as (pre & post & ->). exists (b :: pre), post. reflexivity.
  - intros (pre & post & ->).
    induction pre as [|b pre IH]; rewrite includes_unfold, orb_true_iff.
    + left. apply startsWith_spec. exists post. reflexivity.
    + right. exact IH.
Qed.

Lemma index_head (c : N) (s : Js.str) : Js.index (c :: s) 0 = Some [c].
Proof. reflexivity. Qed.

Lemma index_empty (i : nat) : Js.index [] i = None.
Proof. destruct i; reflexivity. Qed.

(** ** The hooks of VideoCard *)

Lemma thumbnail_url_nonempty (i : Js.str) : thumbnail_url i ≠ [].
Proof. discriminate. Qed.

Lemma initial_coherent : coherent initial.
Proof. exact I. Qed.

Lemma settled_coherent (p : VideoCardProps) : coherent (settled p).
Proof. reflexivity. Qed.

(** Whatever happened before, a commit leaves the effect's thumbnail for
    the current id. *)
Lemma commit_coherent (p : VideoCardProps) (h : hooks) :
  coherent h → commit p h = settled p.
Proof.
  destruct h as [t d]. unfold coherent, commit, deps_changed, settled. simpl.
  destruct d as [[|i [|j d]]|]; try reflexivity; try contradiction.
  intros ->. case_bool_decide as E; simpl; [rewrite E |]; reflexivity.
Qed.

Lemma commit_idempotent (p : VideoCardProps) (h : hooks) :
  coherent h → commit p (commit p h) = commit p h.
Proof.
  intros H. rewrite (commit_coherent p h H).
  apply commit_coherent, settled_coherent.
Qed.

(** A pass ends with the output for the settled hooks. *)
Lemma pass_settles (p : VideoCardProps) (h : hooks) :
  coherent h →
  snd (pass p h) = settled p ∧
  last (fst (pass p h)) = Some (VideoCard p (settled p)).
Proof.
  intros H. unfold pass. rewrite (commit_coherent p h H).
  case_bool_decide as E; simpl; split; try reflexivity.
  unfold VideoCard. rewrite <- E. reflexivity.
Qed.

Lemma pass_nonempty (p : VideoCardProps) (h : hooks) : fst (pass p h) ≠ [].
Proof. unfold pass. case_bool_decide; discriminate. Qed.

(** A pass over settled hooks with the same props renders once. *)
Lemma pass_settled (p : VideoCardProps) :
  pass p (settled p) = ([VideoCard p (settled p)], settled p).
Proof.
  unfold pass. rewrite (commit_coherent p _ (settled_coherent p)).
  rewrite bool_decide_eq_true_2; reflexivity.
Qed.

Lemma mount_eq (p : VideoCardProps) :
  mount p = ([VideoCard p initial; VideoCard p (settled p)], settled p).
Proof. reflexivity. Qed.

Lemma run_cons (p : VideoCardProps) (ps : list VideoCardProps) (h : hooks) :
  run (p :: ps) h =
  (fst (pass p h) ++ fst (run ps (snd (pass p h))), snd (run ps (snd (pass p h)))).
Proof.
  simpl. destruct (pass p h) as [out h']. simpl.
  destruct (run ps h') as [outs h'']. reflexivity.
Qed.

Lemma run_coherent (ps : list VideoCardProps) (h : hooks) :
  coherent h → coherent (snd (run ps h)).
Proof.
  revert h. induction ps as [|p ps IH]; intros h H; [exact H |].
  rewrite run_cons. simpl. apply IH.
  destruct (pass_settles p h H) as [-> _]. apply settled_coherent.
Qed.

Lemma run_app (ps qs : list VideoCardProps) (h : hooks) :
  run (ps ++ qs) h =
  (fst (run ps h) ++ fst (run qs (snd (run ps h))), snd (run qs (snd (run ps h)))).
Proof.
  revert h. induction ps as [|p ps IH]; intros h.
  - simpl. destruct (run qs h); reflexivity.
  - rewrite <- app_comm_cons, !run_cons, IH. simpl. rewrite app_assoc. reflexivity.
Qed.

(** However an instance got there, its last output for the props [p] is
    the one with the thumbnail of [p]. *)
Lemma run_settles (ps : list VideoCardProps) (p : VideoCardProps) (h : hooks) :
  coherent h →
  snd (run (ps ++ [p]) h) = settled p ∧
  last (fst (run (ps ++ [p]) h)) = Some (VideoCard p (settled p)).
Proof.
  intros H. pose proof (run_coherent ps h H) as H'.
  rewrite run_app, run_cons. cbn [fst snd run].
  destruct (pass_settles p _ H') as [E L]. split; [exact E |].
  rewrite app_nil_r, last_app, L. reflexivity.
Qed.

(** Re-rendering a mounted instance with unchanged props. *)
Lemma run_repeat_settled (p : VideoCardProps) (n : nat) :
  run (repeat p n) (settled p) = (repeat (VideoCard p (settled p)) n, settled p).
Proof.
  induction n as [|n IH]; [reflexivity |].
  change (repeat p (S n)) with (p :: repeat p n).
  rewrite run_cons, pass_settled. simpl. rewrite IH. reflexivity.
Qed.

(** A parent that changes the id gets one stale output first. *)
Lemma pass_new_id (p q : VideoCardProps) :
  id p ≠ id q →
  fst (pass q (settled p)) = [view q (thumbnail_url (id p)); view q (thumbnail_url (id q))].
Proof.
  intros H. unfold pass. rewrite (commit_coherent q _ (settled_coherent p)).
  rewrite bool_decide_eq_false_2; [reflexivity |].
  simpl. unfold thumbnail_url. intros E. apply app_inv_head in E. congruence.
Qed.

(** The hooks between passes. *)
Lemma reachable_coherent (h : hooks) : reachable h → coherent h.
Proof. intros [-> | [q ->]]; [apply initial_coherent | apply settled_coherent]. Qed.

Lemma run_reachable (ps : list VideoCardProps) (h : hooks) :
  reachable h → reachable (snd (run ps h)).
Proof.
  revert h. induction ps as [|p ps IH]; intros h R; [exact R |].
  rewrite run_cons. cbn [snd]. apply IH.
  destruct (pass_settles p h (reachable_coherent h R)) as [-> _].
  right. exists p. reflexivity.
Qed.

Lemma run_initial_reachable (before : list VideoCardProps) :
  reachable (snd (run before initial)).
Proof. apply run_reachable. left. reflexivity. Qed.

(** The effect has run for the id of [p] exactly when the state cell
    holds the thumbnail of that id. *)
Lemma reachable_done_iff (p : VideoCardProps) (h : hooks) :
  reachable h →
  (effect_deps h = Some [id p] ↔ thumbnail h = thumbnail_url (id p)).
Proof.
  intros [-> | [q ->]]; simpl.
  - split; [discriminate | intros E; symmetry in E; destruct (thumbnail_url_nonempty _ E)].
  - unfold thumbnail_url. split.
    + intros E. injection E as ->. reflexivity.
    + intros E. apply app_inv_head in E. rewrite E. reflexivity.
Qed.

Lemma deps_changed_false_iff (p : VideoCardProps) (h : hooks) :
  deps_changed p h = false ↔ effect_deps h = Some [id p].
Proof.
  unfold deps_changed. destruct (effect_deps h) as [[|i [|j d]]|];
    try (split; discriminate).
  rewrite negb_false_iff, bool_decide_eq_true. split; [intros -> | intros E]; congruence.
Qed.

(** Every pass of a life, in full: one output when the effect has run
    for the id being rendered, two otherwise. *)
Lemma pass_reachable (p : VideoCardProps) (h : hooks) :
  reachable h →
  pass p h =
  if bool_decide (effect_deps h = Some [id p])
  then ([view p (thumbnail_url (id p))], h)
  else ([VideoCard p h; view p (thumbnail_url (id p))], settled p).
Proof.
  intros R. pose proof (reachable_done_iff p h R) as D.
  unfold pass. rewrite (commit_coherent p h (reachable_coherent h R)).
  cbn [thumbnail settled].
  case_bool_decide as E1; case_bool_decide as E2.
  - unfold VideoCard. rewrite <- E1. f_equal.
    destruct h as [t d]. unfold settled. simpl in *. congruence.
  - destruct E2. apply D. symmetry. exact E1.
  - destruct E1. symmetry. apply D. exact E2.
  - reflexivity.
Qed.

Lemma last_id_done (p : VideoCardProps) (h : hooks) :
  reachable h → (last_id h = Some (id p) ↔ effect_deps h = Some [id p]).
Proof.
  intros [-> | [q ->]]; unfold last_id; simpl.
  - split; discriminate.
  - split; intros E; injection E as ->; reflexivity.
Qed.

Lemma undefined_iff_no_name (p : VideoCardProps) (h : hooks) :
  has_undefined (VideoCard p h) = negb (nonempty (channelName p)).
Proof. unfold VideoCard, view. simpl. destruct (channelName p); reflexivity. Qed.

Lemma views_line (p : VideoCardProps) (h : hooks) :
  texts (VideoCard p h) =
  [duration p] ++ texts (child (Js.index (channelName p) 0)) ++
  [title p; channelName p; views p;
   Js.lit " views " ++ [8226%N] ++ Js.lit " "; timePosted p; [8942%N]].
Proof.
  unfold VideoCard, view. cbn [texts flat_map app].
  rewrite !app_nil_r. reflexivity.
Qed.

(** The queries on the JSX of [view]: one [img], one avatar image, one
    fallback.  The fallback's child is the only part of the tree whose
    shape depends on a prop. *)
Lemma thumbnail_src_view (p : VideoCardProps) (t : Js.str) :
  thumbnail_src (view p t) = [Some t].
Proof. unfold thumbnail_src, view. destruct (channelName p); reflexivity. Qed.

Lemma avatar_src_view (p : VideoCardProps) (t : Js.str) :
  avatar_src (view p t) = [Some (avatar_url (channelId p))].
Proof. unfold avatar_src, view. destruct (channelName p); reflexivity. Qed.

Lemma avatar_fallback_view (p : VideoCardProps) (t : Js.str) :
  avatar_fallback (view p t) = [[child (Js.index (channelName p) 0)]].
Proof. unfold avatar_fallback, view. destruct (channelName p); reflexivity. Qed.

Lemma view_thumbnail_inj (p : VideoCardProps) (t u : Js.str) :
  view p t = view p u → t = u.
Proof.
  intros E. apply (f_equal thumbnail_src) in E.
  rewrite !thumbnail_src_view in E. congruence.
Qed.

(** ** VideoCard *)

(** C1: once the mount effect has run, the output has exactly one [img]
    and its [src] is the placeholder template with the given id,
    ["https://picsum.photos/200/300?random=" ++ id]. *)
Theorem thumbnail_after_mount (p : VideoCardProps) :
  ∃ out,
    last (fst (mount p)) = Some out ∧
    out = VideoCard p (snd (mount p)) ∧
    thumbnail (snd (mount p)) =
      Js.lit "https://picsum.photos/200/300?random=" ++ id p ∧
    thumbnail_src out =
      [Some (Js.lit "https://picsum.photos/200/300?random=" ++ id p)].
Proof.
  exists (VideoCard p (settled p)). rewrite mount_eq. cbn [fst snd last].
  split; [reflexivity | split; [reflexivity | split; [reflexivity |]]].
  apply thumbnail_src_view.
Qed.

(** C2: whatever the state of the thumbnail, the output carries the
    title, the channel name, the views and the duration as text children,
    unchanged. *)
Theorem renders_strings_verbatim (p : VideoCardProps) (h : hooks) :
  In (title p) (texts (VideoCard p h)) ∧
  In (channelName p) (texts (VideoCard p h)) ∧
  In (views p) (texts (VideoCard p h)) ∧
  In (duration p) (texts (VideoCard p h)).
Proof.
  rewrite views_line.
  repeat split; rewrite !in_app_iff; simpl; tauto.
Qed.

(** C3: the output has exactly one avatar image and its [src] is
    ["https://i.pravatar.cc/300?u=" ++ channelId]; the template the
    specification writes with [userId] is this one, applied to the
    [channelId] prop. *)
Theorem avatar_source (p : VideoCardProps) (h : hooks) :
  avatar_src (VideoCard p h) =
    [Some (Js.lit "https://i.pravatar.cc/300?u=" ++ channelId p)] ∧
  avatar_src (VideoCard p h) = [Some (avatar_template (channelId p))].
Proof. split; apply avatar_src_view. Qed.

(** C4, as the code has it: a render is identical to what the
    synchronous variant renders exactly when the effect has run for the
    id of the props being rendered.  A mounted instance that keeps the
    props [p] renders the empty thumbnail once, before the effect, and
    from then on the synchronous output; the first output and the
    synchronous one are the same JSX and differ in the thumbnail [src]
    only.  In any life of an instance, a pass for [p] gives the
    synchronous output alone when the effect has run for the id of [p],
    and otherwise one output with the thumbnail the state still holds,
    which differs, followed by the synchronous output. *)
Theorem effect_matches_sync_after_mount
    (p : VideoCardProps) (n : nat) (before : list VideoCardProps) :
  fst (run (repeat p (S n)) initial) =
    VideoCard p initial :: repeat (VideoCardSync p) (S n) ∧
  VideoCard p initial = view p (Js.lit "") ∧
  VideoCardSync p = view p (thumbnail_url (id p)) ∧
  VideoCard p initial ≠ VideoCardSync p ∧
  (effect_deps (snd (run before initial)) = Some [id p] ↔
   VideoCard p (snd (run before initial)) = VideoCardSync p) ∧
  pass p (snd (run before initial)) =
    if bool_decide (effect_deps (snd (run before initial)) = Some [id p])
    then ([VideoCardSync p], snd (run before initial))
    else ([VideoCard p (snd (run before initial)); VideoCardSync p], settled p).
Proof.
  pose proof (run_initial_reachable before) as R.
  split; [| split; [reflexivity | split; [reflexivity | split; [| split]]]].
  - change (repeat p (S n)) with (p :: repeat p n).
    rewrite run_cons. change (pass p initial) with (mount p).
    rewrite mount_eq. cbn [fst snd]. rewrite run_repeat_settled. reflexivity.
  - intros E. apply view_thumbnail_inj in E. discriminate E.
  - rewrite (reachable_done_iff p _ R). unfold VideoCard, VideoCardSync. split.
    + intros ->. reflexivity.
    + apply view_thumbnail_inj.
  - apply (pass_reachable p _ R).
Qed.

(** C4, as stated, fails on the first output of a mount. *)
Lemma first_render_differs_from_sync :
  ¬ (∀ out, In out (fst (mount demo)) → out = VideoCardSync demo).
Proof.
  intros H. specialize (H (VideoCard demo initial) (or_introl eq_refl)).
  apply view_thumbnail_inj in H. discriminate H.
Qed.

(** C7: when every display string of the props is non-empty,
    [channelName[0]] is defined: it is the first code unit of the channel
    name, the avatar fallback holds it as text, and no child expression of
    the output evaluates to [undefined]. *)
Theorem fallback_initial_defined (p : VideoCardProps) (h : hooks) :
  sane p = true →
  ∃ c rest,
    channelName p = c :: rest ∧
    Js.index (channelName p) 0 = Some [c] ∧
    avatar_fallback (VideoCard p h) = [[Text [c]]] ∧
    has_undefined (VideoCard p h) = false.
Proof.
  unfold sane. rewrite !andb_true_iff. intros [[[[[[_ _] Hn] _] _] _] _].
  rewrite undefined_iff_no_name, Hn. unfold VideoCard.
  rewrite avatar_fallback_view.
  destruct (channelName p) as [|c rest]; [discriminate Hn |].
  exists c, rest. split; [reflexivity | split; [reflexivity | split; reflexivity]].
Qed.

Lemma fallback_initial_defined_witness :
  sane demo = true ∧
  ∃ c rest,
    channelName demo = c :: rest ∧
    Js.index (channelName demo) 0 = Some [c] ∧
    avatar_fallback (VideoCard demo initial) = [[Text [c]]] ∧
    has_undefined (VideoCard demo initial) = false.
Proof.
  split; [reflexivity | apply (fallback_initial_defined demo initial); reflexivity].
Defined.

(** C9: the first output of a mount, rendered before the effect has run,
    has its one [img] with the empty string as [src]. *)
Theorem first_render_empty_thumbnail (p : VideoCardProps) :
  ∃ rest,
    fst (mount p) = VideoCard p initial :: rest ∧
    thumbnail initial = Js.lit "" ∧
    thumbnail_src (VideoCard p initial) = [Some (Js.lit "")].
Proof.
  exists [VideoCard p (settled p)]. rewrite mount_eq.
  split; [reflexivity | split; [reflexivity |]].
  apply thumbnail_src_view.
Qed.

(** ** SafeButton *)

Lemma rest_no_className (o : Js.object) :
  (delete "variant" (delete "className" o) : Js.object) !! "className" = None.
Proof. rewrite lookup_delete_ne by discriminate. apply lookup_delete_eq. Qed.

Lemma rest_no_variant (o : Js.object) :
  (delete "variant" (delete "className" o) : Js.object) !! "variant" = None.
Proof. apply lookup_delete_eq. Qed.

Lemma safe_button_className (o : Js.object) :
  props (SafeButton o) !! "className" =
  Some (Js.VString (cn (Js.lit "font-semibold transition-all") (Js.get o "className"))).
Proof.
  unfold SafeButton. cbn [props].
  rewrite lookup_union_r by apply rest_no_className.
  rewrite lookup_insert_ne by discriminate. apply lookup_insert_eq.
Qed.

Lemma safe_button_variant (o : Js.object) :
  props (SafeButton o) !! "variant" = Some (Js.get o "variant").
Proof.
  unfold SafeButton. cbn [props].
  rewrite lookup_union_r by apply rest_no_variant. apply lookup_insert_eq.
Qed.

Lemma safe_button_other (o : Js.object) (k : string) :
  k ≠ "className" → k ≠ "variant" → props (SafeButton o) !! k = o !! k.
Proof.
  intros Hc Hv. unfold SafeButton. cbn [props].
  rewrite lookup_union, !lookup_insert_ne, lookup_empty by congruence.
  rewrite !lookup_delete_ne by congruence.
  destruct (o !! k); reflexivity.
Qed.

(** The merged class string starts with the static classes. *)
Lemma cn_static_first (static : Js.str) (className : Js.value) :
  ∃ more, cn static className = static ++ more.
Proof.
  destruct className as [|[|c cs]| |]; simpl;
    try (exists []; rewrite app_nil_r; reflexivity).
  eexists. reflexivity.
Qed.

(** C5: whatever value the [variant] property holds, in the enumeration
    or not, the Button receives that value; and whatever [className] is
    given, the class string the Button receives includes
    ["font-semibold"] and ["transition-all"].  The Button is an imported
    primitive: its class list is the [className] it is handed. *)
Theorem safe_button_variant_and_class (o : Js.object) (v : Js.value) :
  props (SafeButton (<["variant" := v]> o)) !! "variant" = Some v ∧
  props (SafeButton o) !! "variant" = Some (Js.get o "variant") ∧
  props (SafeButton o) !! "className" = Some (Js.VString (class_of (SafeButton o))) ∧
  Js.includes (Js.lit "font-semibold") (class_of (SafeButton o)) = true ∧
  Js.includes (Js.lit "transition-all") (class_of (SafeButton o)) = true.
Proof.
  assert (Hc : class_of (SafeButton o) =
               cn (Js.lit "font-semibold transition-all") (Js.get o "className")).
  { unfold class_of. rewrite safe_button_className. reflexivity. }
  split; [| split; [| split; [| split]]].
  - rewrite safe_button_variant. unfold Js.get.
    rewrite lookup_insert_eq. reflexivity.
  - apply safe_button_variant.
  - rewrite Hc. apply safe_button_className.
  - rewrite Hc. destruct (cn_static_first (Js.lit "font-semibold transition-all")
                            (Js.get o "className")) as [more ->].
    apply includes_spec. exists [], (Js.lit " transition-all" ++ more). reflexivity.
  - rewrite Hc. destruct (cn_static_first (Js.lit "font-semibold transition-all")
                            (Js.get o "className")) as [more ->].
    apply includes_spec. exists (Js.lit "font-semibold "), more. reflexivity.
Qed.

(** C6: SafeButton returns one Button element and nothing else.  Its
    props are the given props with [className] replaced by the merge of
    the static class list and the given [className], and with [variant]
    set to what the given [variant] reads as: a property other than
    those two reaches the Button exactly as it was given, present with
    the same value or absent, [variant] is passed on unaltered, and no
    property is dropped or added besides. *)
Theorem safe_button_frame (o : Js.object) (k : string) :
  k ≠ "className" → k ≠ "variant" →
  type (SafeButton o) = Component "Button" ∧
  props (SafeButton o) !! k = o !! k ∧
  dom (props (SafeButton o)) = dom o ∪ {["className"; "variant"]} ∧
  props (SafeButton o) !! "variant" = Some (Js.get o "variant") ∧
  props (SafeButton o) !! "className" =
    Some (Js.VString (cn (Js.lit "font-semibold transition-all")
                         (Js.get o "className"))) ∧
  SafeButton o =
    {| type := Component "Button";
       props :=
         <["className" :=
             Js.VString (cn (Js.lit "font-semibold transition-all")
                            (Js.get o "className"))]>
           (<["variant" := Js.get o "variant"]> o) |}.
Proof.
  intros Hc Hv.
  split; [reflexivity | split; [apply safe_button_other; assumption |]].
  split; [| split; [apply safe_button_variant | split; [apply safe_button_className |]]].
  - apply set_eq. intros x. rewrite elem_of_union, !elem_of_dom.
    destruct (decide (x = "className")) as [-> | Nc].
    { rewrite safe_button_className. split; [right; set_solver | eauto]. }
    destruct (decide (x = "variant")) as [-> | Nv].
    { rewrite safe_button_variant. split; [right; set_solver | eauto]. }
    rewrite safe_button_other by assumption.
    split; [tauto | intros [H | H]; [exact H |]].
    rewrite elem_of_union, !elem_of_singleton in H. tauto.
  - assert (Hp : props (SafeButton o) =
                 <["className" :=
                     Js.VString (cn (Js.lit "font-semibold transition-all")
                                    (Js.get o "className"))]>
                   (<["variant" := Js.get o "variant"]> o)).
    { apply map_eq. intros x.
      destruct (decide (x = "className")) as [-> | Nc].
      { rewrite safe_button_className, lookup_insert_eq. reflexivity. }
      rewrite (lookup_insert_ne _ "className") by congruence.
      destruct (decide (x = "variant")) as [-> | Nv].
      { rewrite safe_button_variant, lookup_insert_eq. reflexivity. }
      rewrite lookup_insert_ne by congruence.
      apply safe_button_other; assumption. }
    rewrite <- Hp. reflexivity.
Qed.

Lemma safe_button_frame_witness :
  "onClick" ≠ "className" ∧ "onClick" ≠ "variant" ∧
  type (SafeButton demo_button) = Component "Button" ∧
  props (SafeButton demo_button) !! "onClick" = demo_button !! "onClick" ∧
  dom (props (SafeButton demo_button)) = dom demo_button ∪ {["className"; "variant"]} ∧
  props (SafeButton demo_button) !! "variant" = Some (Js.get demo_button "variant") ∧
  props (SafeButton demo_button) !! "className" =
    Some (Js.VString (cn (Js.lit "font-semibold transition-all")
                         (Js.get demo_button "className"))) ∧
  SafeButton demo_button =
    {| type := Component "Button";
       props :=
         <["className" :=
             Js.VString (cn (Js.lit "font-semibold transition-all")
                            (Js.get demo_button "className"))]>
           (<["variant" := Js.get demo_button "variant"]> demo_button) |}.
Proof.
  split; [discriminate | split; [discriminate |]].
  apply (safe_button_frame demo_button "onClick"); discriminate.
Defined.

(** ** The configuration *)

(** C8, as the code has it: the allow-list [images.domains] holds exactly
    the two hostnames; the object has exactly two boolean options, both
    [true], [reactStrictMode] at the top and [styledComponents], the one
    option of the [compiler] block; and its keys are those three. *)
Theorem config_contents :
  Config.image_domains Config.nextConfig =
    [Js.lit "i.pravatar.cc"; Js.lit "picsum.photos"] ∧
  Config.all_flags Config.nextConfig =
    [(["reactStrictMode"], true); (["compiler"; "styledComponents"], true)] ∧
  Config.compiler_flags Config.nextConfig = [("styledComponents", true)] ∧
  Config.keys Config.nextConfig = ["reactStrictMode"; "images"; "compiler"].
Proof. repeat split. Qed.

(** C8, as stated, fails: the [compiler] block has one option, not two. *)
Lemma compiler_block_has_one_flag :
  length (Config.compiler_flags Config.nextConfig) ≠ 2.
Proof. discriminate. Qed.

(** ** What the outputs depend on *)

Lemma status_completed_iff (p : VideoCardProps) (h : hooks) :
  status_of p h = Completed ↔ effect_deps h = Some [id p].
Proof.
  rewrite <- deps_changed_false_iff. unfold status_of.
  destruct (deps_changed p h); split; congruence.
Qed.

(** Between passes, the state cell determines the hooks. *)
Lemma reachable_thumbnail_inj (h1 h2 : hooks) :
  reachable h1 → reachable h2 → thumbnail h1 = thumbnail h2 → h1 = h2.
Proof.
  intros [-> | [q1 ->]] [-> | [q2 ->]]; simpl; intros E.
  - reflexivity.
  - symmetry in E. destruct (thumbnail_url_nonempty _ E).
  - destruct (thumbnail_url_nonempty _ E).
  - unfold thumbnail_url in E. apply app_inv_head in E.
    unfold settled. rewrite E. reflexivity.
Qed.

(** C10, as the code has it: a pass of VideoCard is determined by the
    props and the value of the thumbnail state, which two instances
    whose effect is pending need not share; it gives the synchronous
    output alone, a function of the props only, exactly when the effect
    has run for the id being rendered.  SafeButton is determined by what
    [className] and [variant] read as and by the other properties. *)
Theorem outputs_determined_by_props_and_state
    (p : VideoCardProps) (before1 before2 : list VideoCardProps)
    (o1 o2 : Js.object) :
  thumbnail (snd (run before1 initial)) = thumbnail (snd (run before2 initial)) →
  Js.get o1 "className" = Js.get o2 "className" →
  Js.get o1 "variant" = Js.get o2 "variant" →
  (delete "variant" (delete "className" o1) : Js.object) =
    delete "variant" (delete "className" o2) →
  pass p (snd (run before1 initial)) = pass p (snd (run before2 initial)) ∧
  (status_of p (snd (run before1 initial)) = Completed ↔
   fst (pass p (snd (run before1 initial))) = [VideoCardSync p]) ∧
  SafeButton o1 = SafeButton o2.
Proof.
  intros Ht Hc Hv Hr.
  pose proof (run_initial_reachable before1) as R1.
  pose proof (run_initial_reachable before2) as R2.
  split; [| split].
  - rewrite (reachable_thumbnail_inj _ _ R1 R2 Ht). reflexivity.
  - rewrite status_completed_iff, (pass_reachable p _ R1).
    case_bool_decide as E; cbn [fst]; split; try reflexivity;
      try (intros; exact E); try contradiction; discriminate.
  - unfold SafeButton. rewrite Hc, Hv, Hr. reflexivity.
Qed.

Lemma outputs_determined_by_props_and_state_witness :
  thumbnail (snd (run [demo_other_id; demo] initial)) =
    thumbnail (snd (run [demo] initial)) ∧
  Js.get demo_plain "className" =
    Js.get (<["className" := Js.VUndefined]> demo_plain) "className" ∧
  Js.get demo_plain "variant" =
    Js.get (<["className" := Js.VUndefined]> demo_plain) "variant" ∧
  (delete "variant" (delete "className" demo_plain) : Js.object) =
    delete "variant" (delete "className" (<["className" := Js.VUndefined]> demo_plain)) ∧
  pass demo (snd (run [demo_other_id; demo] initial)) =
    pass demo (snd (run [demo] initial)) ∧
  (status_of demo (snd (run [demo_other_id; demo] initial)) = Completed ↔
   fst (pass demo (snd (run [demo_other_id; demo] initial))) = [VideoCardSync demo]) ∧
  SafeButton demo_plain = SafeButton (<["className" := Js.VUndefined]> demo_plain).
Proof.
  assert (H1 : thumbnail (snd (run [demo_other_id; demo] initial)) =
               thumbnail (snd (run [demo] initial))) by (vm_compute; reflexivity).
  assert (H2 : Js.get demo_plain "className" =
               Js.get (<["className" := Js.VUndefined]> demo_plain) "className")
    by (vm_compute; reflexivity).
  assert (H3 : Js.get demo_plain "variant" =
               Js.get (<["className" := Js.VUndefined]> demo_plain) "variant")
    by (vm_compute; reflexivity).
  assert (H4 : (delete "variant" (delete "className" demo_plain) : Js.object) =
               delete "variant" (delete "className"
                 (<["className" := Js.VUndefined]> demo_plain)))
    by (vm_compute; reflexivity).
  split; [exact H1 | split; [exact H2 | split; [exact H3 | split; [exact H4 |]]]].
  exact (outputs_determined_by_props_and_state
           demo [demo_other_id; demo] [demo] demo_plain
           (<["className" := Js.VUndefined]> demo_plain) H1 H2 H3 H4).
Defined.

(** C10, as stated, fails: a fresh instance and one that showed another
    id before are both given the same props with the effect pending, and
    render different trees. *)
Lemma pending_output_depends_on_history :
  ¬ (∀ (p : VideoCardProps) (before1 before2 : list VideoCardProps),
       status_of p (snd (run before1 initial)) =
       status_of p (snd (run before2 initial)) →
       VideoCard p (snd (run before1 initial)) =
       VideoCard p (snd (run before2 initial))).
Proof.
  intros H.
  assert (S : status_of demo (snd (run [] initial)) =
              status_of demo (snd (run [demo_other_id] initial)))
    by (vm_compute; reflexivity).
  specialize (H demo [] [demo_other_id] S).
  apply view_thumbnail_inj in H. vm_compute in H. discriminate H.
Qed.

(** * Further properties of the code *)

(** ** VideoCard: re-renders and the effect's dependency *)

Lemma settled_same_id (p q : VideoCardProps) : id q = id p → settled q = settled p.
Proof. intros E. unfold settled. rewrite E. reflexivity. Qed.

(** X1: when the parent re-renders a mounted card with new props that
    keep the id, the dependency array is unchanged and the effect is
    skipped: whatever the state cell holds is left as it is, there is one
    output, it shows the new props with the thumbnail already loaded,
    and the hooks are unchanged. *)
Theorem rerender_same_id (p q : VideoCardProps) :
  id q = id p →
  pass q (settled p) = ([view q (thumbnail_url (id p))], settled p) ∧
  deps_changed q (settled p) = false ∧
  (∀ t, commit q {| thumbnail := t; effect_deps := Some [id p] |} =
        {| thumbnail := t; effect_deps := Some [id p] |}).
Proof.
  intros E. split; [| split].
  - unfold pass.
    rewrite (commit_coherent q _ (settled_coherent p)), (settled_same_id p q E).
    rewrite bool_decide_eq_true_2; reflexivity.
  - apply deps_changed_false_iff. rewrite E. reflexivity.
  - intros t. unfold commit.
    replace (deps_changed q {| thumbnail := t; effect_deps := Some [id p] |})
      with false; [reflexivity |].
    symmetry. apply deps_changed_false_iff. rewrite E. reflexivity.
Qed.

Lemma rerender_same_id_witness :
  id demo_retitled = id demo ∧
  pass demo_retitled (settled demo) =
    ([view demo_retitled (thumbnail_url (id demo))], settled demo) ∧
  deps_changed demo_retitled (settled demo) = false ∧
  (∀ t, commit demo_retitled {| thumbnail := t; effect_deps := Some [id demo] |} =
        {| thumbnail := t; effect_deps := Some [id demo] |}).
Proof.
  split; [reflexivity | apply (rerender_same_id demo demo_retitled); reflexivity].
Defined.

(** X2: when the new props carry another id, the card renders twice:
    first the new props with the thumbnail of the old id, then, after the
    effect, with the thumbnail of the new id. *)
Theorem rerender_new_id (p q : VideoCardProps) :
  id q ≠ id p →
  pass q (settled p) =
    ([view q (thumbnail_url (id p)); view q (thumbnail_url (id q))], settled q).
Proof.
  intros H. unfold pass. rewrite (commit_coherent q _ (settled_coherent p)).
  rewrite bool_decide_eq_false_2; [reflexivity |].
  simpl. unfold thumbnail_url. intros E. apply app_inv_head in E. exact (H E).
Qed.

Lemma rerender_new_id_witness :
  id demo_other_id ≠ id demo ∧
  pass demo_other_id (settled demo) =
    ([view demo_other_id (thumbnail_url (id demo));
      view demo_other_id (thumbnail_url (id demo_other_id))],
     settled demo_other_id).
Proof.
  split; [discriminate |].
  apply (rerender_new_id demo demo_other_id). discriminate.
Defined.

(** The length of a life, from any hooks an instance can have. *)
Lemma run_length (ps : list VideoCardProps) (h : hooks) :
  reachable h →
  length (fst (run ps h)) = length ps + id_changes (last_id h) ps.
Proof.
  revert h. induction ps as [|p ps IH]; intros h R; [reflexivity |].
  rewrite run_cons, (pass_reachable p h R). cbn [id_changes length].
  pose proof (last_id_done p h R) as D.
  case_bool_decide as E; cbn [fst snd length app].
  - rewrite (IH h R). apply D in E. rewrite E.
    rewrite bool_decide_eq_true_2 by reflexivity. lia.
  - rewrite (IH (settled p)) by (right; exists p; reflexivity).
    rewrite bool_decide_eq_false_2 by (intros L; apply E, D, L).
    cbn [last_id settled effect_deps]. lia.
Qed.

(** X3: a life of an instance has one output per props it is given, and
    one more for the mount and for each time the id differs from the
    one before: the effect causes a second render exactly then. *)
Theorem render_count (ps : list VideoCardProps) :
  length (fst (run ps initial)) = length ps + id_changes None ps.
Proof. apply (run_length ps initial). left. reflexivity. Qed.

(** X4: whatever props a mounted instance went through, after the pass
    for the props [p] its state holds the thumbnail of [p]'s id and its
    last output is the card of [p] with that thumbnail. *)
Theorem thumbnail_follows_props (before : list VideoCardProps) (p : VideoCardProps) :
  thumbnail (snd (run (before ++ [p]) initial)) = thumbnail_url (id p) ∧
  effect_deps (snd (run (before ++ [p]) initial)) = Some [id p] ∧
  last (fst (run (before ++ [p]) initial)) = Some (view p (thumbnail_url (id p))).
Proof.
  destruct (run_settles before p initial initial_coherent) as [E L].
  rewrite E, L. split; [reflexivity | split; reflexivity].
Qed.

(** X5: the id reaches the output through the thumbnail state only: two
    props records that differ in nothing but the id render the same tree
    for the same hooks, and their first outputs on mount are equal. *)
Theorem id_only_reaches_thumbnail (p q : VideoCardProps) :
  same_but_id p q →
  (∀ h, VideoCard p h = VideoCard q h) ∧
  hd_error (fst (mount p)) = hd_error (fst (mount q)).
Proof.
  destruct p, q. unfold same_but_id. simpl.
  intros (-> & -> & -> & -> & -> & ->). split; [intros h |]; reflexivity.
Qed.

Lemma id_only_reaches_thumbnail_witness :
  same_but_id demo demo_other_id ∧
  (∀ h, VideoCard demo h = VideoCard demo_other_id h) ∧
  hd_error (fst (mount demo)) = hd_error (fst (mount demo_other_id)).
Proof.
  assert (H : same_but_id demo demo_other_id).
  { unfold same_but_id. repeat (split; [reflexivity |]). reflexivity. }
  split; [exact H | apply (id_only_reaches_thumbnail demo demo_other_id H)].
Defined.

(** X6: the id and the channel id are put into the URLs as they are:
    two thumbnail URLs are equal exactly when the ids are, and two avatar
    URLs exactly when the channel ids are. *)
Theorem urls_injective (i j : Js.str) :
  (thumbnail_url i = thumbnail_url j ↔ i = j) ∧
  (avatar_url i = avatar_url j ↔ i = j).
Proof.
  unfold thumbnail_url, avatar_url.
  split; (split; [apply app_inv_head | intros ->; reflexivity]).
Qed.

(** ** VideoCard: the images and the allow-list of the configuration *)

Lemma allowed_thumbnail_url (i : Js.str) : allowed (thumbnail_url i) = true.
Proof. reflexivity. Qed.

Lemma allowed_avatar_url (c : Js.str) : allowed (avatar_url c) = true.
Proof. reflexivity. Qed.

Lemma images_allowed_view (p : VideoCardProps) (t : Js.str) :
  t = [] ∨ allowed t = true → images_allowed (view p t).
Proof.
  intros H. split.
  - exists (avatar_url (channelId p)).
    split; [apply avatar_src_view | apply allowed_avatar_url].
  - exists t. split; [apply thumbnail_src_view | exact H].
Qed.

Lemma commit_thumbnail (p : VideoCardProps) (h : hooks) :
  thumbnail (commit p h) = thumbnail h ∨
  thumbnail (commit p h) = thumbnail_url (id p).
Proof. unfold commit. destruct (deps_changed p h); [right | left]; reflexivity. Qed.

Lemma run_images_allowed (ps : list VideoCardProps) (h : hooks) :
  thumbnail h = [] ∨ allowed (thumbnail h) = true →
  Forall images_allowed (fst (run ps h)).
Proof.
  revert h. induction ps as [|p ps IH]; intros h H; [constructor |].
  assert (H' : thumbnail (commit p h) = [] ∨ allowed (thumbnail (commit p h)) = true).
  { destruct (commit_thumbnail p h) as [E | E]; rewrite E;
      [exact H | right; apply allowed_thumbnail_url]. }
  rewrite run_cons. cbn [fst]. apply Forall_app. split.
  - pose proof (images_allowed_view p _ H) as V.
    pose proof (images_allowed_view p _ H') as V'.
    unfold pass, VideoCard. case_bool_decide; cbn [fst].
    + constructor; [exact V | constructor].
    + constructor; [exact V | constructor; [exact V' | constructor]].
  - apply IH. unfold pass. case_bool_decide; exact H'.
Qed.

(** X7: in every output of a mounted instance, whatever props it is
    given over its life, the avatar URL starts with [https://], a host of
    [images.domains] and a slash, and the thumbnail [src] is either still
    empty or such a URL; no id or channel id can move an image to another
    host. *)
Theorem rendered_images_allowed (ps : list VideoCardProps) :
  Forall images_allowed (fst (run ps initial)).
Proof. apply run_images_allowed. left. reflexivity. Qed.

(** ** VideoCard: the rest of the tree *)

(** X8: the avatar fallback holds the first code unit of the channel
    name, and for an empty channel name it holds [undefined], the only
    case in which a child of the output is [undefined]. *)
Theorem fallback_by_channel_name (p : VideoCardProps) (h : hooks) :
  avatar_fallback (VideoCard p h) =
    [[match channelName p with [] => Undefined | c :: _ => Text [c] end]] ∧
  has_undefined (VideoCard p h) =
    match channelName p with [] => true | _ :: _ => false end.
Proof.
  rewrite undefined_iff_no_name. unfold VideoCard.
  rewrite avatar_fallback_view.
  destruct (channelName p); split; reflexivity.
Qed.

(** X9: the text of the card, read in document order, is the duration,
    the first code unit of the channel name (nothing when it is empty),
    the title, the channel name, the views, [" views "], a bullet, a
    space, the time posted, and the menu glyph. *)
Theorem card_text_content (p : VideoCardProps) (h : hooks) :
  text_content (VideoCard p h) =
    duration p ++ firstn 1 (channelName p) ++ title p ++ channelName p ++
    views p ++ Js.lit " views " ++ [8226%N] ++ Js.lit " " ++
    timePosted p ++ [8942%N].
Proof.
  unfold text_content. rewrite views_line.
  destruct (channelName p) as [|c rest];
    cbn [Js.index nth_error child texts concat app firstn];
    rewrite ?app_nil_r, <- ?app_assoc; reflexivity.
Qed.

(** X10: the thumbnail image carries the title as its [alt] in every
    output, also in the first one, where its [src] is still empty. *)
Theorem thumbnail_alt_is_title (p : VideoCardProps) (h : hooks) :
  thumbnail_alt (VideoCard p h) = [Some (title p)].
Proof.
  unfold thumbnail_alt, VideoCard, view. destruct (channelName p); reflexivity.
Qed.

(** ** SafeButton: what the output depends on *)

(** The element is determined by what [className] and [variant] read as
    and by the other properties. *)
Lemma safe_button_ext (o o' : Js.object) :
  Js.get o "className" = Js.get o' "className" →
  Js.get o "variant" = Js.get o' "variant" →
  (∀ k, k ≠ "className" → k ≠ "variant" → o !! k = o' !! k) →
  SafeButton o = SafeButton o'.
Proof.
  intros Hc Hv Hk. unfold SafeButton. rewrite Hc, Hv. f_equal. f_equal.
  apply map_eq. intros k.
  destruct (decide (k = "variant")) as [-> | Nv]; [rewrite !lookup_delete_eq; reflexivity |].
  rewrite !(lookup_delete_ne _ "variant") by congruence.
  destruct (decide (k = "className")) as [-> | Nc]; [rewrite !lookup_delete_eq; reflexivity |].
  rewrite !lookup_delete_ne by congruence. apply Hk; assumption.
Qed.

(** X11: a [variant] or a [className] that is given as [undefined] is
    treated exactly like one that is not given at all. *)
Theorem undefined_same_as_absent (o : Js.object) :
  SafeButton (<["variant" := Js.VUndefined]> o) = SafeButton (delete "variant" o) ∧
  SafeButton (<["className" := Js.VUndefined]> o) = SafeButton (delete "className" o).
Proof.
  split; apply safe_button_ext; unfold Js.get.
  - rewrite lookup_insert_ne, lookup_delete_ne by discriminate. reflexivity.
  - rewrite lookup_insert_eq, lookup_delete_eq. reflexivity.
  - intros k _ Hv. rewrite lookup_insert_ne, lookup_delete_ne by congruence. reflexivity.
  - rewrite lookup_insert_eq, lookup_delete_eq. reflexivity.
  - rewrite lookup_insert_ne, lookup_delete_ne by discriminate. reflexivity.
  - intros k Hc _. rewrite lookup_insert_ne, lookup_delete_ne by congruence. reflexivity.
Qed.

(** X12: wrapping twice changes nothing but the class string: the props
    a SafeButton makes from the props another SafeButton made are, apart
    from [className], the props the first one made; in particular the
    variant survives both. *)
Theorem safe_button_twice (o : Js.object) :
  (delete "className" (props (SafeButton (props (SafeButton o)))) : Js.object) =
    delete "className" (props (SafeButton o)) ∧
  props (SafeButton (props (SafeButton o))) !! "variant" = Some (Js.get o "variant").
Proof.
  assert (Hv : props (SafeButton (props (SafeButton o))) !! "variant" =
               Some (Js.get o "variant")).
  { rewrite safe_button_variant. unfold Js.get at 1.
    rewrite safe_button_variant. reflexivity. }
  split; [| exact Hv].
  apply map_eq. intros k.
  destruct (decide (k = "className")) as [-> | Nc]; [rewrite !lookup_delete_eq; reflexivity |].
  rewrite !lookup_delete_ne by congruence.
  destruct (decide (k = "variant")) as [-> | Nv].
  - rewrite Hv, safe_button_variant. reflexivity.
  - rewrite safe_button_other by assumption. reflexivity.
Qed.

(** ** The client wrapper *)

Lemma wrapper_run_cons (c : list node) (cs : list (list node)) (h : wrapper_hooks) :
  wrapper_run (c :: cs) h =
  (fst (wrapper_pass c h) ++ fst (wrapper_run cs (snd (wrapper_pass c h))),
   snd (wrapper_run cs (snd (wrapper_pass c h)))).
Proof.
  simpl. destruct (wrapper_pass c h) as [out h']. simpl.
  destruct (wrapper_run cs h') as [outs h'']. reflexivity.
Qed.

(** Once mounted, the wrapper renders its children once per update. *)
Lemma wrapper_run_mounted (cs : list (list node)) :
  wrapper_run cs {| mounted := true; effect_ran := true |} =
  (map Fragment cs, {| mounted := true; effect_ran := true |}).
Proof.
  induction cs as [|c cs IH]; [reflexivity |].
  rewrite wrapper_run_cons. cbn [wrapper_pass wrapper_commit effect_ran mounted
    Bool.eqb fst snd ClientWrapper negb app].
  rewrite IH. reflexivity.
Qed.

(** X13: the wrapper's first output is [null], whatever its children
    are; the effect then makes it render the children, and from then on
    every update renders exactly the children it is given, once, and
    never [null] again. *)
Theorem client_wrapper_life (c : list node) (cs : list (list node)) :
  wrapper_run (c :: cs) wrapper_initial =
  (Null :: Fragment c :: map Fragment cs, {| mounted := true; effect_ran := true |}).
Proof.
  rewrite wrapper_run_cons. cbn [wrapper_pass wrapper_commit wrapper_initial
    effect_ran mounted Bool.eqb fst snd ClientWrapper negb app].
  rewrite wrapper_run_mounted. reflexivity.
Qed.
